(** * Source maps (Revision 3) of py-algorand-sdk

    A shallow embedding of [algosdk/source_map.py]: the base-64 VLQ codec,
    the coarse program-counter index ([SourceMap]), the chunk model with the
    functional mapper and its composition, and the fine entry table
    ([MJPSourceMap]) with its decoder, encoder and lookup.

    Python values are modelled as follows.
    - [int] is [Z] (unbounded); a value known to be non-negative where a loop
      depends on it is [N].
    - [str] is the list of its Unicode code points ([list N]); [bytes] is the
      list of its byte values.
    - an exception is a value of [exn]; a function that can raise returns
      [result A].
    - a [dict] is a [gmap]; the auto-numbering dictionary [autoindex] is the
      list of its keys in first-use order (the number of a key is its
      position).  *)

From Stdlib Require Import ZArith NArith List Lia DecimalString.
From stdpp Require Import base option list strings gmap.
From Equations Require Import Equations.
Import ListNotations.

Local Open Scope Z_scope.

(** ** Python values and exceptions *)

Module Py.

Definition str := list N.
Definition bytes := list N.

(** A literal: the code points of an ASCII text. *)
Definition lit (s : string) : str :=
  map Ascii.N_of_ascii (String.list_ascii_of_string s).

Inductive exn : Type :=
| SourceMapVersionError (version : Z)
| ValueError (msg : string)
| TypeError (msg : string)
| AttributeError (msg : string)
| UnicodeEncodeError
| IndexError
| KeyError
| AssertionError.

Inductive result (A : Type) : Type :=
| Ok (a : A)
| Raise (e : exn).
Arguments Ok {A} a.
Arguments Raise {A} e.

#[export] Instance result_ret : MRet result := fun _ a => Ok a.
#[export] Instance result_bind : MBind result := fun _ _ f m =>
  match m with Ok a => f a | Raise e => Raise e end.
#[export] Instance result_fmap : FMap result := fun _ _ f m =>
  match m with Ok a => Ok (f a) | Raise e => Raise e end.

(** [for x in l: acc = f acc x], stopping at the first exception. *)
Fixpoint foldM {A B} (f : B → A → result B) (l : list A) (acc : B) : result B :=
  match l with
  | [] => Ok acc
  | x :: l => acc ← f acc x; foldM f l acc
  end.

(** [[f(x) for x in l]], stopping at the first exception. *)
Fixpoint mapM {A B} (f : A → result B) (l : list A) : result (list B) :=
  match l with
  | [] => Ok []
  | x :: l => y ← f x; ys ← mapM f l; Ok (y :: ys)
  end.

(** [all(f(x) for x in l)]: stops at the first [False] and at the first
    exception. *)
Fixpoint allM {A} (f : A → result bool) (l : list A) : result bool :=
  match l with
  | [] => Ok true
  | x :: l => f x ≫= λ b : bool, if b then allM f l else Ok false
  end.

(** [enumerate(l)], counting from [i]. *)
Fixpoint enumerate_from {A} (i : nat) (l : list A) : list (nat * A) :=
  match l with
  | [] => []
  | x :: l => (i, x) :: enumerate_from (S i) l
  end.
Definition enumerate {A} (l : list A) : list (nat * A) := enumerate_from 0 l.

(** [len(l)] as a Python integer. *)
Definition len {A} (l : list A) : Z := Z.of_nat (length l).

(** [l[i]]: a negative index counts from the end; out of range raises
    [IndexError]. *)
Definition getitem {A} (l : list A) (i : Z) : result A :=
  let j := if decide (i < 0) then i + len l else i in
  if decide (j < 0) then Raise IndexError
  else match l !! Z.to_nat j with
       | Some x => Ok x
       | None => Raise IndexError
       end.

(** [l[k:]]: a negative start counts from the end; never raises. *)
Definition slice_from {A} (l : list A) (k : Z) : list A :=
  let j := if decide (k < 0) then Z.max (k + len l) 0 else k in
  drop (Z.to_nat j) l.

(** [s.split(sep)] for a one-character separator: the pieces between the
    occurrences of [sep]; the empty text gives one empty piece. *)
Fixpoint split (sep : N) (s : str) : list str :=
  match s with
  | [] => [[]]
  | c :: s =>
      if decide (c = sep) then [] :: split sep s
      else match split sep s with
           | piece :: pieces => (c :: piece) :: pieces
           | [] => [[c]]
           end
  end.

(** [sep.join(pieces)]. *)
Fixpoint join (sep : str) (pieces : list str) : str :=
  match pieces with
  | [] => []
  | [piece] => piece
  | piece :: pieces => piece ++ sep ++ join sep pieces
  end.

(** The line boundaries of [str.splitlines]: LF, VT, FF, CR, FS, GS, RS,
    NEL, LS and PS. *)
Definition is_linebreak (c : N) : bool :=
  bool_decide (c ∈ [10; 11; 12; 13; 28; 29; 30; 133; 8232; 8233]%N).

(** [s.splitlines()]: CR LF counts as one boundary and a final boundary
    opens no further line. [cur] is the line read so far, reversed. *)
Fixpoint splitlines_from (cur : str) (s : str) : list str :=
  match s with
  | [] => match cur with [] => [] | _ => [rev cur] end
  | c :: s' =>
      if is_linebreak c then
        rev cur ::
          match c, s' with
          | 13%N, 10%N :: s'' => splitlines_from [] s''
          | _, _ => splitlines_from [] s'
          end
      else splitlines_from (c :: cur) s'
  end.
Definition splitlines (s : str) : list str := splitlines_from [] s.

(** ** [bisect.bisect_right]

    [while lo < hi: mid = (lo + hi) // 2;
     if x < a[mid]: hi = mid else: lo = mid + 1], returning [lo].
    [a[mid]] is always in range since [lo <= mid < hi <= len(a)]. *)
Section Bisect.
Context {A : Type} (lt : A → A → bool).

Equations? bisect_loop (a : list A) (x : A) (lo hi : nat) : nat
  by wf (hi - lo)%nat Nat.lt :=
  bisect_loop a x lo hi :=
    if decide (lo < hi)%nat then
      let mid := ((lo + hi) / 2)%nat in
      match a !! mid with
      | Some y => if lt x y then bisect_loop a x lo mid
                  else bisect_loop a x (S mid) hi
      | None => lo
      end
    else lo.
Proof.
  all: change mid with ((lo + hi) `div` 2)%nat; unfold Nat.lt;
    pose proof (Nat.div_mod_eq (lo + hi) 2) as Hdiv;
    pose proof (Nat.mod_upper_bound (lo + hi) 2) as Hmod; lia.
Qed.

Definition bisect_right (a : list A) (x : A) : nat :=
  bisect_loop a x 0 (length a).
End Bisect.

(** Python's order on pairs of integers. *)
Definition pair_lt (p q : Z * Z) : bool :=
  (p.1 <? q.1) || ((p.1 =? q.1) && (p.2 <? q.2)).

End Py.
Import Py.

(** ** The base-64 VLQ codec *)

Definition _b64chars : bytes :=
  lit "ABCDEFGHIJKLMNOPQRSTUVWXYZabcdefghijklmnopqrstuvwxyz0123456789+/".

(** [_b64table = [-1] * (max(_b64chars) + 1)], then
    [_b64table[b] = i] for every [i, b] of [enumerate(_b64chars)]. *)
Definition _b64table : list Z :=
  fold_left (fun table '(i, b) => <[N.to_nat b := Z.of_nat i]> table)
    (enumerate _b64chars)
    (replicate (S (N.to_nat (fold_right N.max 0%N _b64chars))) (-1)).

Definition shiftsize : Z := 5.
Definition flag : Z := Z.shiftl 1 5.
Definition mask : Z := Z.shiftl 1 5 - 1.

(** [vlqval.encode("ascii")]: the whole text is encoded before the loop
    starts, and a code point above 127 anywhere in it raises. *)
Definition encode_ascii (s : str) : result bytes :=
  if forallb (fun c => c <? 128)%N s then Ok s else Raise UnicodeEncodeError.

(** [_b64table.__getitem__] on a byte. *)
Definition b64table_getitem (b : N) : result Z :=
  getitem _b64table (Z.of_N b).

(** The body of the [for] loop of [_base64vlq_decode], with its three
    variables [shift], [value] and [results]. *)
Fixpoint vlq_decode_loop (bs : bytes) (shift value : Z) (results : list Z)
  : result (list Z) :=
  match bs with
  | [] => Ok results
  | b :: bs =>
      v ← b64table_getitem b;
      let value := value + Z.shiftl (Z.land v mask) shift in
      if decide (Z.land v flag ≠ 0) then
        vlq_decode_loop bs (shift + shiftsize) value results
      else
        let signed := Z.shiftr value 1 * (if decide (Z.land value 1 ≠ 0) then -1 else 1) in
        vlq_decode_loop bs 0 0 (results ++ [signed])
  end.

Definition _base64vlq_decode (vlqval : str) : result (list Z) :=
  bs ← encode_ascii vlqval;
  vlq_decode_loop bs 0 0 [].

(** [v = (abs(v) << 1) | int(v < 0)]: the magnitude with the sign in the
    lowest bit, a non-negative integer. *)
Definition add_sign_bit (v : Z) : N :=
  N.lor (N.shiftl (Z.abs_N v) 1) (if decide (v < 0) then 1%N else 0%N).

(** The [while True] loop of [_base64vlq_encode] on the non-negative [v]:
    the 6-bit groups it adds to [results], least significant first. *)
Equations? vlq_groups (v : N) : list N by wf (N.to_nat (N.log2 v)) Nat.lt :=
  vlq_groups v :=
    let toencode := N.land v (Z.to_N mask) in
    let v' := N.shiftr v (Z.to_N shiftsize) in
    N.lor toencode (if decide (v' = 0%N) then v' else Z.to_N flag) ::
      (if decide (v' = 0%N) then [] else vlq_groups v').
Proof.
  unfold Nat.lt. subst v'. change (Z.to_N shiftsize) with 5%N in *.
  destruct (N.eq_dec v 0%N) as [->|Hv]; [done|].
  rewrite N.log2_shiftr by lia.
  assert (5 <= N.log2 v)%N; [|lia].
  destruct (N.le_gt_cases 5 (N.log2 v)) as [|Hlt]; [done|].
  exfalso. apply n. apply N.shiftr_eq_0. lia.
Qed.

(** [_b64chars.__getitem__] on a group. *)
Definition b64chars_getitem (d : N) : result N :=
  getitem _b64chars (Z.of_N d).

Definition _base64vlq_encode (values : list Z) : result str :=
  mapM b64chars_getitem
    (concat (map (fun v => vlq_groups (add_sign_bit v)) values)).

(** ** The wire record

    [JSONSourceMap] is a [TypedDict] with [total=False]: a key may be
    missing. [version] and [mappings] are read with [smap[...]] by both
    decoders and are modelled as present. For the other keys [None] stands
    for a missing key: [.get] returns [None] for it and
    [source_map["sources"]] raises [KeyError]. [sourcesContent] is read with
    a default, so a missing key ([None]) differs from a key that holds
    [null] ([Some None]). *)
Module JSON.
Record JSONSourceMap := {
  version : Z;
  file : option str;
  sourceRoot : option str;
  sources : option (list str);
  sourcesContent : option (option (list (option str)));
  names : option (list str);
  mappings : str;
}.
End JSON.
Import JSON.

(** ** The coarse decoder: [SourceMap] *)

Definition _decode_int_value (value : str) : result (option Z) :=
  decoded_value ← _base64vlq_decode value;
  match decoded_value with
  | [] => Ok None
  | _ => Some <$> getitem decoded_value 2
  end.

Module SourceMap.
Record t := {
  version : Z;
  sources : list str;
  mappings : str;
  pc_to_line : gmap Z Z;
  line_to_pc : gmap Z (list Z);
}.

(** One round of the loop over [enumerate(pc_list)]. *)
Definition step (acc : Z * gmap Z Z * gmap Z (list Z)) (item : nat * option Z)
  : Z * gmap Z Z * gmap Z (list Z) :=
  let '(last_line, pc_to_line, line_to_pc) := acc in
  let '(index, line_delta) := item in
  let last_line :=
    match line_delta with
    | Some line_delta => last_line + line_delta
    | None => last_line
    end in
  let line_to_pc :=
    match line_to_pc !! last_line with
    | None => <[last_line := []]> line_to_pc
    | Some _ => line_to_pc
    end in
  (last_line,
   <[Z.of_nat index := last_line]> pc_to_line,
   alter (λ pcs, pcs ++ [Z.of_nat index]) last_line line_to_pc).

(** [SourceMap.__init__]. *)
Definition __init__ (source_map : JSONSourceMap) : result t :=
  let version := JSON.version source_map in
  if decide (version ≠ 3) then Raise (SourceMapVersionError version)
  else
    sources ← match JSON.sources source_map with
              | Some sources => Ok sources
              | None => Raise KeyError
              end;
    let mappings := JSON.mappings source_map in
    pc_list ← mapM _decode_int_value (split 59 mappings);
    let '(_, pc_to_line, line_to_pc) :=
      fold_left step (enumerate pc_list) (0, ∅, ∅) in
    Ok {| version := version; sources := sources; mappings := mappings;
          pc_to_line := pc_to_line; line_to_pc := line_to_pc |}.

Definition get_line_for_pc (self : t) (pc : Z) : option Z :=
  pc_to_line self !! pc.

End SourceMap.

(** ** Chunks and the functional mapper *)

Module Chunk.
Record t := mk {
  source_line_number : Z;
  source_line : str;
  source_col_bounds : Z * Z;
  target_line_number : Z;
  target_line : str;
  target_col_bounds : Z * Z;
}.

#[global] Instance eq_dec : EqDecision t.
Proof. solve_decision. Defined.

Definition simple (source_line_number : Z) (source_line : str)
    (target_line_number : Z) (target_line : str) : t :=
  mk source_line_number source_line (0, len source_line)
     target_line_number target_line (0, len target_line).
End Chunk.

Module FunctionalSourceMapper.
(** The field [source_map] is [None] on every path below and is left out. *)
Record t := mk {
  index : list (Z * Z);
  chunks : list Chunk.t;
}.

(** [__call__]. *)
Definition __call__ (self : t) (line column : Z) : result (option Chunk.t) :=
  let idx := Z.of_nat (bisect_right pair_lt (index self) (line, column)) in
  if decide (0 ≤ idx < len (index self)) then Some <$> getitem (chunks self) idx
  else Ok None.

Definition from_chunks (chunks : list Chunk.t) : result t :=
  let indexer :=
    map (λ '(line, chunk), (Z.of_nat line, (Chunk.source_col_bounds chunk).2))
      (enumerate chunks) in
  if negb (bool_decide (length chunks = length indexer)) then Raise AssertionError
  else if negb (forallb (λ '(i, idx),
                   match indexer !! S i with
                   | Some next => pair_lt idx next
                   | None => false
                   end) (enumerate (removelast indexer)))
  then Raise AssertionError
  else
    let fsm := mk indexer chunks in
    ok ← allM (λ '(i, idx),
                 found ← __call__ fsm idx.1 (idx.2 - 1);
                 chunk ← getitem chunks (Z.of_nat i);
                 Ok (bool_decide (found = Some chunk)))
           (enumerate indexer);
    if (ok : bool) then Ok fsm else Raise AssertionError.

(** [__mul__]: [self * other]. *)
Definition __mul__ (self other : t) : result t :=
  chunks ← mapM (λ schunk,
              ochunk ← __call__ other (Chunk.source_line_number schunk)
                                      (Chunk.source_col_bounds schunk).1;
              match ochunk with
              | None => Raise AssertionError
              | Some ochunk =>
                  Ok (Chunk.mk
                        (Chunk.source_line_number ochunk)
                        (Chunk.source_line ochunk)
                        (Chunk.source_col_bounds ochunk)
                        (Chunk.target_line_number schunk)
                        (Chunk.target_line schunk)
                        (Chunk.source_col_bounds schunk))
              end) (chunks self);
  from_chunks chunks.

Definition generate_target (chunks : list Chunk.t) : str :=
  join [10%N] (map Chunk.target_line chunks).

Definition target (self : t) : str := generate_target (chunks self).
End FunctionalSourceMapper.

(** ** The fine entry: [SourceMapping] *)

Module SourceMapping.
Record t := mk {
  line : Z;
  column : Z;
  source : option str;
  source_line : option Z;
  source_column : option Z;
  name : option str;
  source_extract : option str;
  target_extract : option str;
  source_content : option (list str);
}.

#[global] Instance eq_dec : EqDecision t.
Proof. solve_decision. Defined.

Definition __post_init__ (self : t) : result t :=
  if bool_decide (source self ≠ None)
     && (bool_decide (source_line self = None)
         || bool_decide (source_column self = None))
  then Raise (TypeError
    "Invalid source mapping; missing line and column for source file")
  else if bool_decide (name self ≠ None) && bool_decide (source self = None)
  then Raise (TypeError
    "Invalid source mapping; name entry without source location info")
  else Ok self.

(** The constructor: the dataclass stores the fields, then
    [__post_init__] runs. *)
Definition new (line column : Z) (source : option str)
    (source_line source_column : option Z) (name : option str)
    (source_extract target_extract : option str)
    (source_content : option (list str)) : result t :=
  __post_init__ (mk line column source source_line source_column name
                    source_extract target_extract source_content).
End SourceMapping.

(** ** The fine map: [MJPSourceMap] *)

(** [autoindex]: a [defaultdict] whose factory hands out 0, 1, 2, ... Reading
    a key that is absent stores the next number for it; a number is never
    removed, so the number of a key is its position in first-use order. *)
Module autoindex.
Definition t := list str.

Definition __getitem__ (self : t) (key : str) : Z * t :=
  match list_find (λ k, k = key) self with
  | Some (i, _) => (Z.of_nat i, self)
  | None => (len self, self ++ [key])
  end.

(** [[k for k, _ in sorted(self.items(), key=lambda ki: ki[1])]]. *)
Definition keys_by_number (self : t) : list str := self.
End autoindex.

Module MJPSourceMap.
Record t := mk {
  file : option str;
  source_root : option str;
  entries : gmap (Z * Z) SourceMapping.t;
  _index : list (list Z);
}.

(** The running positions [spos], [npos], [sline], [scol] of both loops. *)
Record cursor := {
  spos : Z;
  npos : Z;
  sline : Z;
  scol : Z;
}.

Section FromJson.
(** What [from_json] fixes before its loop. *)
Variables (source_files : list str) (names : option (list str))
          (sp_conts : list (list str)) (tcont : option (list str)).

(** The body of the inner loop, on one decoded segment
    [gcd, *ref]. *)
Definition from_json_segment (gline : Z)
    (acc : gmap (Z * Z) SourceMapping.t * cursor * Z * list Z)
    (decoded : list Z)
  : result (gmap (Z * Z) SourceMapping.t * cursor * Z * list Z) :=
  let '(entries, cur, gcol, cols) := acc in
  match decoded with
  | [] => Raise (ValueError
            "not enough values to unpack (expected at least 1, got 0)")
  | gcd :: ref =>
      let gcol := gcol + gcd in
      '(cur, entry) ←
        match ref with
        | sd :: sld :: scd :: namedelta =>
            let spos := spos cur + sd in
            let sline := sline cur + sld in
            let scol := scol cur + scd in
            scont ← (if decide (len sp_conts > spos)
                     then Some <$> getitem sp_conts spos else Ok None);
            scont_extract ←
              match scont with
              | Some ((_ :: _) as scont) =>
                  l ← getitem scont sline; Ok (Some (slice_from l scol))
              | _ => Ok None
              end;
            tcont_extract ←
              match tcont with
              | Some ((_ :: _) as tcont) =>
                  l ← getitem tcont gline; Ok (Some (slice_from l gcol))
              | _ => Ok None
              end;
            source ← (if decide (spos < len source_files)
                      then Some <$> getitem source_files spos else Ok None);
            '(npos, name) ←
              match namedelta with
              | [] => Ok (npos cur, None)
              | nd :: _ =>
                  let npos := npos cur + nd in
                  match names with
                  | None => Raise (TypeError
                              "'NoneType' object is not subscriptable")
                  | Some names =>
                      name ← getitem names npos; Ok (npos, Some name)
                  end
              end;
            entry ← SourceMapping.new gline gcol source (Some sline)
                      (Some scol) name scont_extract tcont_extract scont;
            Ok ({| spos := spos; npos := npos; sline := sline;
                   scol := scol |}, entry)
        | _ =>
            entry ← SourceMapping.new gline gcol None None None None
                      None None None;
            Ok (cur, entry)
        end;
      Ok (<[(gline, gcol) := entry]> entries, cur, gcol, cols ++ [gcol])
  end.

(** The body of the outer loop, on one [';']-separated group. *)
Definition from_json_line
    (acc : gmap (Z * Z) SourceMapping.t * cursor * list (list Z))
    (item : nat * str)
  : result (gmap (Z * Z) SourceMapping.t * cursor * list (list Z)) :=
  let '(entries, cur, index) := acc in
  let '(gline, vlqs) := item in
  match vlqs with
  | [] => Ok (entries, cur, index ++ [[]])
  | _ =>
      '(entries, cur, _, cols) ←
        foldM (λ acc segment,
                 decoded ← _base64vlq_decode segment;
                 from_json_segment (Z.of_nat gline) acc decoded)
          (split 44 vlqs) (entries, cur, 0, []);
      Ok (entries, cur, index ++ [cols])
  end.
End FromJson.

Definition from_json (smap : JSONSourceMap) (sources : list str)
    (source_files : option (list str)) (target : option str) : result t :=
  if decide (JSON.version smap ≠ 3)
  then Raise (ValueError "Only version 3 sourcemaps are supported")
  else
    let jsource_files := JSON.sources smap in
    let source_files :=
      match source_files, jsource_files with
      | Some ((_ :: _) as source_files), _ => source_files
      | _, Some ((_ :: _) as jsource_files) => jsource_files
      | _, _ => [lit "unknown"]
      end in
    let names := JSON.names smap in
    contents ← match JSON.sourcesContent smap with
               | None => Ok (map Some sources)
               | Some (Some contents) => Ok contents
               | Some None => Raise (TypeError
                                "'NoneType' object is not iterable")
               end;
    sp_conts ← mapM (λ c : option str,
                       match c with
                       | Some c => Ok (splitlines c)
                       | None => Raise (AttributeError
                           "'NoneType' object has no attribute 'splitlines'")
                       end) contents;
    let tcont := match target with
                 | Some ((_ :: _) as target) => Some (splitlines target)
                 | _ => None
                 end in
    '(entries, _, index) ←
      foldM (from_json_line source_files names sp_conts tcont)
        (enumerate (split 59 (JSON.mappings smap)))
        (∅, {| spos := 0; npos := 0; sline := 0; scol := 0 |}, []);
    Ok (mk (JSON.file smap) (JSON.sourceRoot smap) entries index).

(** The state of the loops of [to_json]: [content], the two [autoindex]
    dictionaries and the running positions. *)
Record encoder := {
  content : list (option str);
  sources : autoindex.t;
  names : autoindex.t;
  pos : cursor;
}.

(** The body of the inner loop of [to_json], on one column. *)
Definition to_json_col (entries : gmap (Z * Z) SourceMapping.t) (gline : Z)
    (acc : encoder * Z * list str) (col : Z)
  : result (encoder * Z * list str) :=
  let '(st, gcol, mapping) := acc in
  entry ← match entries !! (gline, col) with
          | Some entry => Ok entry
          | None => Raise KeyError
          end;
  let ds := [col - gcol] in
  let gcol := col in
  '(st, ds) ←
    match SourceMapping.source entry with
    | None => Ok (st, ds)
    | Some source =>
        match SourceMapping.source_line entry,
              SourceMapping.source_column entry with
        | Some source_line, Some source_column =>
            let '(source_id, sources) :=
              autoindex.__getitem__ (sources st) source in
            let ds := ds ++ [source_id - spos (pos st);
                             source_line - sline (pos st);
                             source_column - scol (pos st)] in
            let spos := spos (pos st) + (source_id - spos (pos st)) in
            let sline := sline (pos st) + (source_line - sline (pos st)) in
            let scol := scol (pos st) + (source_column - scol (pos st)) in
            let content :=
              if decide (spos = len (content st)) then
                content st ++
                  [match SourceMapping.source_content entry with
                   | Some ((_ :: _) as c) => Some (join [10%N] c)
                   | _ => None
                   end]
              else content st in
            let '(ds, npos, names) :=
              match SourceMapping.name entry with
              | Some name =>
                  let '(name_id, names) :=
                    autoindex.__getitem__ (names st) name in
                  (ds ++ [name_id - npos (pos st)],
                   npos (pos st) + (name_id - npos (pos st)), names)
              | None => (ds, npos (pos st), names st)
              end in
            Ok ({| content := content; sources := sources; names := names;
                   pos := {| spos := spos; npos := npos; sline := sline;
                             scol := scol |} |}, ds)
        | _, _ => Raise AssertionError
        end
    end;
  token ← _base64vlq_encode ds;
  Ok (st, gcol, mapping ++ [token]).

(** The body of the outer loop of [to_json], on one line of [_index]. *)
Definition to_json_line (entries : gmap (Z * Z) SourceMapping.t)
    (acc : encoder * list str) (item : nat * list Z)
  : result (encoder * list str) :=
  let '(st, mappings) := acc in
  let '(gline, cols) := item in
  '(st, _, mapping) ←
    foldM (to_json_col entries (Z.of_nat gline)) cols (st, 0, []);
  Ok (st, mappings ++ [join [44%N] mapping]).

Definition to_json (self : t) : result JSONSourceMap :=
  '(st, mappings) ←
    foldM (to_json_line (entries self)) (enumerate (_index self))
      ({| content := []; sources := []; names := [];
          pos := {| spos := 0; npos := 0; sline := 0; scol := 0 |} |}, []);
  Ok {| JSON.version := 3;
        JSON.sources := Some (autoindex.keys_by_number (sources st));
        JSON.sourcesContent := Some (Some (content st));
        JSON.names := Some (autoindex.keys_by_number (names st));
        JSON.mappings := join [59%N] mappings;
        JSON.file := file self;
        JSON.sourceRoot := source_root self |}.

(** The argument of [__getitem__]: a line, or a pair of a line and a
    column. *)
Inductive idx := Line (l : Z) | LineColumn (l c : Z).

Definition __getitem__ (self : t) (idx : idx) : result SourceMapping.t :=
  let '(l, c) := match idx with
                 | LineColumn l c => (l, c)
                 | Line l => (l, 0)
                 end in
  match entries self !! (l, c) with
  | Some entry => Ok entry
  | None =>
      cols ← getitem (_index self) l;
      match cols with
      | [] => Raise IndexError
      | _ =>
          let cidx := Z.of_nat (bisect_right Z.ltb cols c) in
          col ← getitem cols (if decide (cidx = 0) then cidx else cidx - 1);
          match entries self !! (l, col) with
          | Some entry => Ok entry
          | None => Raise KeyError
          end
      end
  end.
End MJPSourceMap.

(** ** Right-bound inference *)

Module RightBounds.
(** Modelled from the spec: the right-bound inference (the spec's
    [infer_right_bounds], which the tests call [add_right_bounds]) is not
    in [source_map.py], and [SourceMapping] there has no field for an end
    column. Section 4.4 of the spec: "for every generated line with two or
    more mapped columns, walk the columns in ascending order and set each
    entry's implicit end-column to the next column on that line; the last
    column on a line gets an end-column equal to the line's full length
    when the target text is known, otherwise is left unbounded."

    An entry is a [SourceMapping] with its end column. *)
Record entry := {
  mapping : SourceMapping.t;
  end_column : option Z;
}.

(** Modelled from the spec: a fine map whose entries carry an end column,
    with the lines of the target text when it is known. *)
Record t := {
  entries : gmap (Z * Z) entry;
  _index : list (list Z);
  target : option (list str);
}.

(** Modelled from the spec: setting the end column of an entry. *)
Definition set_end (bound : Z) (e : entry) : entry :=
  {| mapping := mapping e; end_column := Some bound |}.

(** Modelled from the spec: the walk over the columns of one line, in the
    order of the index, which sets each end column to the next column and
    the last one to [line_length], the length of the target line, when it
    is known. *)
Fixpoint walk (line_length : option Z) (gline : Z) (cols : list Z)
    (entries : gmap (Z * Z) entry) : gmap (Z * Z) entry :=
  match cols with
  | [] => entries
  | col :: rest =>
      match rest with
      | next :: _ =>
          walk line_length gline rest (alter (set_end next) (gline, col) entries)
      | [] =>
          match line_length with
          | Some n => alter (set_end n) (gline, col) entries
          | None => entries
          end
      end
  end.

(** Modelled from the spec: the inference on one line of the index, which
    only walks a line of two or more columns. *)
Definition infer_line (target : option (list str))
    (entries : gmap (Z * Z) entry) (item : nat * list Z)
  : gmap (Z * Z) entry :=
  let '(gline, cols) := item in
  if decide (2 ≤ length cols)%nat then
    walk (len <$> (target ≫= λ lines, lines !! gline)) (Z.of_nat gline)
      cols entries
  else entries.

(** Modelled from the spec: [infer_right_bounds], missing from
    [source_map.py], over every line of the index. *)
Definition infer_right_bounds (self : t) : t :=
  {| entries := fold_left (infer_line (target self))
                  (enumerate (_index self)) (entries self);
     _index := _index self;
     target := target self |}.
End RightBounds.

(** ** Vocabulary of the statements *)

(** The character that the encoder writes for a 6-bit group, and the
    signed integer that the decoder reads off an accumulated value. *)
Definition b64char (d : N) : N := nth (N.to_nat d) _b64chars 0%N.
Definition signed_of (value : Z) : Z :=
  Z.shiftr value 1 * (if decide (Z.land value 1 ≠ 0) then -1 else 1).

(** A list of columns in ascending order, as [bisect] expects it. *)
Definition ascending (cols : list Z) : Prop :=
  ∀ i j x y, cols !! i = Some x → cols !! j = Some y → (i ≤ j)%nat → x ≤ y.

(** The columns mapped on generated line [l] of a fine map. *)
Definition mapped_columns (m : MJPSourceMap.t) (l : Z) : list Z :=
  if decide (0 ≤ l) then default [] (MJPSourceMap._index m !! Z.to_nat l)
  else [].

(** A fine map whose index lists, line by line and in ascending order,
    columns that have an entry. *)
Definition fine_wf (m : MJPSourceMap.t) : Prop :=
  ∀ (l : nat) cols, MJPSourceMap._index m !! l = Some cols →
    ascending cols ∧
    ∀ col, col ∈ cols → is_Some (MJPSourceMap.entries m !! (Z.of_nat l, col)).

(** The end columns that the walk over one line sets, as a list of
    assignments in the order of the walk, and the assignments of a whole
    index; [apply_bounds] carries a list of assignments out. *)
Fixpoint line_bounds (line_length : option Z) (gline : Z) (cols : list Z)
  : list ((Z * Z) * Z) :=
  match cols with
  | [] => []
  | col :: rest =>
      match rest with
      | next :: _ => ((gline, col), next) :: line_bounds line_length gline rest
      | [] =>
          match line_length with
          | Some n => [((gline, col), n)]
          | None => []
          end
      end
  end.

Definition item_bounds (target : option (list str)) (item : nat * list Z)
  : list ((Z * Z) * Z) :=
  if decide (2 ≤ length item.2)%nat then
    line_bounds (len <$> (target ≫= λ lines, lines !! item.1))
      (Z.of_nat item.1) item.2
  else [].

Definition apply_bounds (bounds : list ((Z * Z) * Z))
    (entries : gmap (Z * Z) RightBounds.entry) : gmap (Z * Z) RightBounds.entry :=
  fold_left (λ entries b, alter (RightBounds.set_end b.2) b.1 entries)
    bounds entries.

(** The last end column that a list of assignments gives to a key. *)
Definition last_bound (k : Z * Z) (bounds : list ((Z * Z) * Z)) : option Z :=
  fold_left (λ acc b, if decide (b.1 = k) then Some b.2 else acc) bounds None.

(** A mappings string as the coarse decoder expects it: every
    [';']-separated group holds at most one segment (no [',']) and does not
    decode to exactly three integers. *)
Definition single_segment_groups (mappings : str) : Prop :=
  Forall (λ group,
            (44%N ∉ group) ∧
            ∀ decoded, _base64vlq_decode group = Ok decoded →
                       length decoded ≠ 3%nat)
    (split 59 mappings).

(** The entries decoded so far lie on generated lines below [k], and each
    one that carries a source line agrees with the coarse table. *)
Definition agree_upto (k : nat) (entries : gmap (Z * Z) SourceMapping.t)
    (pc_to_line : gmap Z Z) : Prop :=
  (∀ i col, is_Some (entries !! (i, col)) → i < Z.of_nat k) ∧
  (∀ i col e sl, entries !! (i, col) = Some e →
                 SourceMapping.source_line e = Some sl →
                 pc_to_line !! i = Some sl).

(** The index names only columns that have an entry. *)
Definition index_keys (entries : gmap (Z * Z) SourceMapping.t)
    (index : list (list Z)) : Prop :=
  ∀ (l : nat) cols, index !! l = Some cols →
    ∀ col, col ∈ cols → is_Some (entries !! (Z.of_nat l, col)).

(** ** Sample inputs *)

Module Samples.
(** [{"version": v, "sources": ["a.teal"], "names": [], "mappings": m}] *)
Definition record (v : Z) (m : str) : JSONSourceMap :=
  {| JSON.version := v; JSON.file := None; JSON.sourceRoot := None;
     JSON.sources := Some [lit "a.teal"]; JSON.sourcesContent := None;
     JSON.names := Some []; JSON.mappings := m |}.

(** An entry at [(line, column)] with nothing but its position. *)
Definition bare (line column : Z) : SourceMapping.t :=
  SourceMapping.mk line column None None None None None None None.

(** A fine map with the columns 2, 5 and 9 mapped on generated line 0. *)
Definition fine259 : MJPSourceMap.t :=
  MJPSourceMap.mk None None
    (<[(0, 2) := bare 0 2]> (<[(0, 5) := bare 0 5]> (<[(0, 9) := bare 0 9]> ∅)))
    [[2; 5; 9]].

(** One line of TEAL at program counter 0, as [get_chunks_with_source]
pairs them, and the chunk of a first compilation stage that produced that
line from columns 4 to 10 of its own source. *)
Definition teal_to_pc : Chunk.t :=
  Chunk.simple 0 (lit "return") 0 (lit "PC[0]").
Definition source_to_teal : Chunk.t :=
  Chunk.mk 0 (lit "    return") (4, 10) 0 (lit "return") (0, 6).

(** A record that carries the text of its source. *)
Definition record_with_text : JSONSourceMap :=
  {| JSON.version := 3; JSON.file := None; JSON.sourceRoot := None;
     JSON.sources := Some [lit "a.teal"];
     JSON.sourcesContent := Some (Some [Some (lit "int 1
return")]);
     JSON.names := Some []; JSON.mappings := lit "AAAA;AACA" |}.

(** A map with one column on line 0 and two on line 1, target unknown. *)
Definition bounded : RightBounds.t :=
  {| RightBounds.entries :=
       <[(0, 3) := {| RightBounds.mapping := bare 0 3;
                      RightBounds.end_column := None |}]>
       (<[(1, 0) := {| RightBounds.mapping := bare 1 0;
                       RightBounds.end_column := None |}]>
       (<[(1, 4) := {| RightBounds.mapping := bare 1 4;
                       RightBounds.end_column := None |}]> ∅));
     RightBounds._index := [[3]; [0; 4]];
     RightBounds.target := None |}.
End Samples.

(** ** Vocabulary of the further properties *)






















(* ================================================================== *)
(** * Properties *)

(** [lia] with integer division and remainder. *)
#[local] Ltac Zify.zify_post_hook ::= Z.to_euclidean_division_equations.

(** ** The result monad *)

Section ResultMonad.
Context {A B : Type}.

Lemma bind_Ok (m : result A) (f : A → result B) b :
  (m ≫= f) = Ok b ↔ ∃ a, m = Ok a ∧ f a = Ok b.
Proof.
  destruct m as [a|e]; cbn; split.
  - eauto.
  - by intros (? & [= <-] & ?).
  - done.
  - by intros (? & [=] & ?).
Qed.

Lemma mapM_Ok_map (f : A → result B) (g : A → B) (l : list A) :
  Forall (λ x, f x = Ok (g x)) l → mapM f l = Ok (map g l).
Proof.
  induction 1 as [|x l Hx _ IH]; cbn; [done|].
  by rewrite Hx; cbn; rewrite IH.
Qed.
End ResultMonad.

(** ** Indexing *)

Section Indexing.
Context {A : Type}.

Lemma getitem_nonneg (l : list A) (i : Z) :
  0 ≤ i →
  getitem l i = match l !! Z.to_nat i with
                | Some x => Ok x
                | None => Raise IndexError
                end.
Proof.
  intros Hi. unfold getitem.
  destruct (decide (i < 0)); [lia|]. cbn zeta.
  by destruct (decide (i < 0)); [lia|].
Qed.

Lemma getitem_raise (l : list A) (i : Z) (e : exn) :
  getitem l i = Raise e → e = IndexError.
Proof.
  unfold getitem. case_decide; [congruence|].
  destruct (l !! _); congruence.
Qed.
End Indexing.

(** ** VLQ codec *)

Section VLQ.

(** Every group the encoder emits is below 64, whatever the value. *)
Lemma vlq_groups_lt64 (v : N) : Forall (λ d, d < 64)%N (vlq_groups v).
Proof.
  funelim (vlq_groups v). cbn zeta.
  change (Z.to_N mask) with (N.ones 5). change (Z.to_N flag) with 32%N.
  change (Z.to_N shiftsize) with 5%N in *.
  assert (N.land v (N.ones 5) < 32)%N as Hlow
    by (rewrite N.land_ones; apply N.mod_upper_bound; lia).
  constructor; [|destruct (decide _); [constructor|auto]].
  set (d := N.lor _ _).
  destruct (N.eq_dec d 0%N) as [->|Hd]; [lia|].
  change 64%N with (2 ^ 6)%N. apply N.log2_lt_pow2; [lia|].
  subst d. rewrite N.log2_lor.
  destruct (decide _) as [->|_]; cbn.
  - destruct (N.eq_dec (N.land v (N.ones 5)) 0%N) as [->|?]; [cbn; lia|].
    assert (N.log2 (N.land v (N.ones 5)) < 5)%N by (apply N.log2_lt_pow2; lia).
    lia.
  - destruct (N.eq_dec (N.land v (N.ones 5)) 0%N) as [->|?]; [cbn; lia|].
    assert (N.log2 (N.land v (N.ones 5)) < 5)%N by (apply N.log2_lt_pow2; lia).
    change (N.log2 32) with 5%N. lia.
Qed.

(** The alphabet and the table are inverse on the 64 groups, and the
    table value splits into its five data bits and the continuation flag. *)
Lemma b64_group_char (d : N) :
  (d < 64)%N →
  b64chars_getitem d = Ok (b64char d) ∧ (b64char d < 128)%N ∧
  b64table_getitem (b64char d) = Ok (Z.of_N d) ∧
  Z.land (Z.of_N d) mask = Z.of_N (d mod 32) ∧
  Z.land (Z.of_N d) flag = (if (d <? 32)%N then 0 else 32).
Proof.
  intros Hd. destruct d as [|p]; [by vm_compute|].
  repeat (destruct p as [p|p|]; try (exfalso; lia)); by vm_compute.
Qed.

Lemma lor_flag (a : N) : (a < 32)%N → N.lor a 32 = (a + 32)%N.
Proof.
  intros Ha. destruct a as [|p]; [done|].
  repeat (destruct p as [p|p|]; try (exfalso; lia)); done.
Qed.

(** Decoding the groups of one value [n], met with [shift] and [value]
    pending, completes the value [value + (n << shift)]. *)
Lemma vlq_decode_groups (n : N) : ∀ (rest : bytes) (shift value : Z) results,
  0 ≤ shift →
  vlq_decode_loop (map b64char (vlq_groups n) ++ rest) shift value results
  = vlq_decode_loop rest 0 0
      (results ++ [signed_of (value + Z.shiftl (Z.of_N n) shift)]).
Proof.
  funelim (vlq_groups n). intros rest shift value results Hshift. cbn zeta.
  clear Heqcall. change (Z.to_N mask) with (N.ones 5).
  change (Z.to_N flag) with 32%N. change (Z.to_N shiftsize) with 5%N in *.
  rewrite N.land_ones, N.shiftr_div_pow2. rewrite N.shiftr_div_pow2 in H.
  change (2 ^ 5)%N with 32%N in *.
  assert (v mod 32 < 32)%N as Hlow by (apply N.mod_upper_bound; lia).
  pose proof (N.div_mod v 32 ltac:(lia)) as Hv.
  destruct (decide (v / 32 = 0)%N) as [Hz|Hnz].
  - rewrite Hz, N.lor_0_r.
    destruct (b64_group_char (v mod 32)%N ltac:(lia)) as (_ & _ & Htab & Hmask & Hflag).
    rewrite (proj2 (N.ltb_lt _ _)) in Hflag by done.
    cbn [map app vlq_decode_loop]. rewrite Htab. cbn [mbind result_bind].
    rewrite Hmask, Hflag, N.Div0.mod_mod. rewrite decide_False by lia.
    fold (signed_of (value + Z.of_N (v mod 32) ≪ shift)).
    replace (v mod 32)%N with v by lia. done.
  - rewrite lor_flag by done.
    destruct (b64_group_char (v mod 32 + 32)%N ltac:(lia)) as (_ & _ & Htab & Hmask & Hflag).
    rewrite (proj2 (N.ltb_ge _ _)) in Hflag by lia.
    cbn [map app vlq_decode_loop]. rewrite Htab. cbn [mbind result_bind].
    rewrite Hmask, Hflag. rewrite decide_True by lia.
    replace (v mod 32 + 32)%N with (v mod 32 + 1 * 32)%N by lia.
    rewrite N.Div0.mod_add, N.Div0.mod_mod.
    rewrite (H Hnz) by (unfold shiftsize; lia).
    unfold shiftsize.
    rewrite !Z.shiftl_mul_pow2 by lia. rewrite Z.pow_add_r by lia.
    change (2 ^ 5) with 32.
    replace (value + Z.of_N (v mod 32) * 2 ^ shift + Z.of_N (v / 32) * (2 ^ shift * 32))
      with (value + Z.of_N v * 2 ^ shift); [done|].
    rewrite Hv at 1. lia.
Qed.

Lemma signed_of_add_sign_bit (x : Z) : signed_of (Z.of_N (add_sign_bit x)) = x.
Proof.
  destruct x as [|p|p]; [done| |]; unfold signed_of.
  - change (Z.of_N (add_sign_bit (Z.pos p))) with (Z.pos p~0).
    change (Z.pos p~0 ≫ 1) with (Z.pos p).
    change (Z.land (Z.pos p~0) 1) with 0.
    rewrite decide_False by (intros H; by apply H). lia.
  - change (Z.of_N (add_sign_bit (Z.neg p))) with (Z.pos p~1).
    change (Z.pos p~1 ≫ 1) with (Z.pos p).
    change (Z.land (Z.pos p~1) 1) with 1.
    rewrite decide_True by done. lia.
Qed.

Lemma vlq_decode_values (values : list Z) : ∀ results,
  vlq_decode_loop
    (map b64char (concat (map (λ v, vlq_groups (add_sign_bit v)) values)))
    0 0 results
  = Ok (results ++ values).
Proof.
  induction values as [|x values IH]; intros results; cbn [map concat].
  - by rewrite app_nil_r.
  - rewrite map_app, vlq_decode_groups by done.
    rewrite Z.shiftl_0_r, Z.add_0_l, signed_of_add_sign_bit, IH.
    by rewrite <- app_assoc.
Qed.

Lemma vlq_encode_token (values : list Z) :
  _base64vlq_encode values
  = Ok (map b64char (concat (map (λ v, vlq_groups (add_sign_bit v)) values))).
Proof.
  apply mapM_Ok_map, Forall_concat, Forall_map, Forall_true. intros x.
  eapply Forall_impl; [apply vlq_groups_lt64|].
  intros d Hd. by apply b64_group_char.
Qed.

Lemma vlq_token_ascii (values : list Z) :
  encode_ascii
    (map b64char (concat (map (λ v, vlq_groups (add_sign_bit v)) values)))
  = Ok (map b64char (concat (map (λ v, vlq_groups (add_sign_bit v)) values))).
Proof.
  unfold encode_ascii. rewrite (proj2 (forallb_forall _ _)); [done|].
  intros c [d [<- Hd]]%in_map_iff. apply N.ltb_lt.
  apply b64_group_char. apply list_elem_of_In in Hd. revert d Hd.
  apply Forall_forall, Forall_concat, Forall_map, Forall_true.
  intros x. apply vlq_groups_lt64.
Qed.

(** C1. Decoding the token that the VLQ encoder produces for any finite
    sequence of signed integers gives back exactly that sequence: the
    encoder always returns a token, and the decoder reads from it every
    value with its sign (zero is encoded with a clear sign bit and comes
    back as 0). *)
Theorem vlq_roundtrip (values : list Z) :
  ∃ token, _base64vlq_encode values = Ok token ∧
           _base64vlq_decode token = Ok values.
Proof.
  eexists. split; [apply vlq_encode_token|].
  unfold _base64vlq_decode. rewrite vlq_token_ascii. cbn [mbind result_bind].
  by rewrite vlq_decode_values.
Qed.

Lemma b64table_getitem_raise (b : N) (e : exn) :
  b64table_getitem b = Raise e → e = IndexError.
Proof. apply getitem_raise. Qed.

(** A character above ['z'] (the last index of the table) or outside
    ASCII is refused, wherever it stands in the token. *)
Lemma vlq_decode_loop_high (bs : bytes) : ∀ shift value results,
  Exists (λ b, 122 < b)%N bs → Forall (λ b, b < 128)%N bs →
  vlq_decode_loop bs shift value results = Raise IndexError.
Proof.
  induction bs as [|b bs IH]; intros shift value results Hex Hall.
  - by apply Exists_nil in Hex.
  - apply Forall_cons in Hall as [Hb Hall]. cbn [vlq_decode_loop].
    destruct (decide (122 < b)%N) as [Hhigh|Hlow].
    + assert (b64table_getitem b = Raise IndexError) as ->; [|done].
      assert (b ∈ [123; 124; 125; 126; 127]%N) as Hin.
      { assert (b = 123 ∨ b = 124 ∨ b = 125 ∨ b = 126 ∨ b = 127)%N
          as [->|[->|[->|[->| ->]]]] by lia; set_solver. }
      repeat (apply elem_of_cons in Hin as [->|Hin]; [by vm_compute|]).
      by apply elem_of_nil in Hin.
    + apply Exists_cons in Hex as [?|Hex]; [done|].
      destruct (b64table_getitem b) as [v|e] eqn:Hv; cbn [mbind result_bind].
      * case_decide; by apply IH.
      * by rewrite (b64table_getitem_raise _ _ Hv).
Qed.

Lemma vlq_decode_rejects_high (token : str) :
  Exists (λ c, 122 < c)%N token → ∃ e, _base64vlq_decode token = Raise e.
Proof.
  intros Hex. unfold _base64vlq_decode, encode_ascii.
  destruct (forallb _ token) eqn:Hascii; [|by eexists].
  cbn [mbind result_bind]. exists IndexError.
  apply vlq_decode_loop_high; [done|].
  apply Forall_forall. intros c Hc%list_elem_of_In.
  rewrite forallb_forall in Hascii. by apply N.ltb_lt, Hascii.
Qed.

(** No text made of characters up to ['z'] is ever refused, whatever it
    holds: the table has a value for each of them. *)
Lemma b64table_getitem_low (b : N) :
  (b ≤ 122)%N → ∃ v, b64table_getitem b = Ok v.
Proof.
  intros Hb. unfold b64table_getitem. rewrite getitem_nonneg by lia.
  destruct (lookup_lt_is_Some_2 _b64table (Z.to_nat (Z.of_N b))) as [v ->].
  - change (length _b64table) with 123%nat. lia.
  - by exists v.
Qed.

Lemma vlq_decode_loop_low (bs : bytes) : ∀ shift value results,
  Forall (λ b, b ≤ 122)%N bs →
  ∃ decoded, vlq_decode_loop bs shift value results = Ok decoded.
Proof.
  induction bs as [|b bs IH]; intros shift value results Hlow; cbn.
  - by eexists.
  - apply Forall_cons in Hlow as [Hb Hlow].
    destruct (b64table_getitem_low b Hb) as [v ->]. cbn.
    case_decide; by apply IH.
Qed.

Lemma vlq_decode_accepts_low (token : str) :
  Forall (λ c, c ≤ 122)%N token → ∃ decoded, _base64vlq_decode token = Ok decoded.
Proof.
  intros Hlow. unfold _base64vlq_decode, encode_ascii.
  rewrite (proj2 (forallb_forall _ _)).
  - by apply vlq_decode_loop_low.
  - intros c Hc%list_elem_of_In. apply N.ltb_lt.
    pose proof (proj1 (Forall_forall _ _) Hlow c Hc) as Hle. cbn beta in Hle. lia.
Qed.

(** The coarse decoder hands whole groups to the VLQ decoder, commas
    included: the comma of ["AAAA,CACA"] is read as data as well. *)
Lemma vlq_decode_reads_comma :
  _base64vlq_decode (lit "AAAA,CACA") = Ok [0; 0; 0; 0; -47; 0; 1; 0].
Proof. by vm_compute. Qed.

(** C8, at the token ["!A"]. ['!'] is not one of the 64 characters of the
    alphabet, yet the decoder does not fail: the table holds -1 for it,
    and -1 is read as a group with all five data bits and the continuation
    flag set, so the token decodes to [-15]. *)
Theorem vlq_decode_reads_foreign_character :
  (33%N ∉ _b64chars) ∧ _base64vlq_decode (lit "!A") = Ok [-15].
Proof. split; [apply (bool_decide_unpack _)|]; by vm_compute. Qed.

End VLQ.

(** ** Version check of both decoders *)

Section Version.

(** C9. A record whose version is not 3 is refused by the coarse and by
    the fine decoder with their version error, and this is all that
    happens: the result does not depend on the mappings string, so it is
    the same for a string whose parsing would raise. *)
Theorem version_rejected_before_parsing (r : JSONSourceMap) :
  JSON.version r ≠ 3 →
  SourceMap.__init__ r = Raise (SourceMapVersionError (JSON.version r)) ∧
  ∀ sources source_files target,
    MJPSourceMap.from_json r sources source_files target
    = Raise (ValueError "Only version 3 sourcemaps are supported").
Proof.
  intros Hv. split; [|intros sources source_files target].
  - unfold SourceMap.__init__. by rewrite decide_True.
  - unfold MJPSourceMap.from_json. by rewrite decide_True.
Qed.

Lemma version_rejected_before_parsing_witness :
  SourceMap.__init__ (Samples.record 2 (lit "A"))
  = Raise (SourceMapVersionError 2) ∧
  MJPSourceMap.from_json (Samples.record 2 (lit "A")) [] None None
  = Raise (ValueError "Only version 3 sourcemaps are supported").
Proof.
  destruct (version_rejected_before_parsing (Samples.record 2 (lit "A")))
    as [Hcoarse Hfine]; [done|].
  split; [exact Hcoarse|apply Hfine].
Defined.

End Version.

(** ** Construction of a fine entry *)

Section Entry.
Import SourceMapping.

(** C7, as the claim states it, fails: a source line and a source column
    without a source identifier are accepted. *)
Lemma entry_line_without_source_accepted :
  new 0 0 None (Some 1) (Some 1) None None None None
  = Ok (mk 0 0 None (Some 1) (Some 1) None None None None).
Proof. reflexivity. Qed.

(** C7, amended. Construction fails with a [TypeError] when a source
    identifier comes without a source line or without a source column, and
    when a name comes without a source identifier. So every constructed
    entry has its source line and column whenever it has a source
    identifier, and has a source identifier (hence line and column)
    whenever it has a name. *)
Theorem entry_copresence line column source source_line source_column name
    source_extract target_extract source_content :
  let made := new line column source source_line source_column name
                source_extract target_extract source_content in
  ((source ≠ None ∧ (source_line = None ∨ source_column = None)) ∨
   (name ≠ None ∧ source = None) →
   ∃ msg, made = Raise (TypeError msg)) ∧
  (∀ e, made = Ok e →
     (SourceMapping.source e ≠ None →
      SourceMapping.source_line e ≠ None ∧
      SourceMapping.source_column e ≠ None) ∧
     (SourceMapping.name e ≠ None → SourceMapping.source e ≠ None)).
Proof.
  unfold new, __post_init__; cbn.
  destruct source, source_line, source_column, name; cbn;
    (split; [intros [[? [?|?]]|[? ?]]; by eauto|]);
    intros e [= <-]; cbn; by split.
Qed.

Lemma entry_copresence_witness :
  (∃ msg, new 0 0 None None None (Some (lit "f")) None None None
          = Raise (TypeError msg)) ∧
  (SourceMapping.source (mk 0 0 (Some (lit "a")) (Some 1) (Some 2) None None None None) ≠ None →
   SourceMapping.source_line (mk 0 0 (Some (lit "a")) (Some 1) (Some 2) None None None None) ≠ None).
Proof.
  split.
  - apply (entry_copresence 0 0 None None None (Some (lit "f")) None None None).
    right. by split.
  - intros Hsrc.
    apply (proj2 (entry_copresence 0 0 (Some (lit "a")) (Some 1) (Some 2) None None None None)
             _ eq_refl).
    exact Hsrc.
Defined.

End Entry.

(** ** Lookup in the fine map *)

Section Lookup.
Import MJPSourceMap.

(** [bisect_right] on an ascending list splits it into the elements that
    are at most [x] and those above [x]. *)
Lemma bisect_loop_spec (a : list Z) (x : Z) (n : nat) : ∀ lo hi,
  ascending a → (hi - lo = n)%nat → (lo ≤ hi ≤ length a)%nat →
  (∀ i y, (i < lo)%nat → a !! i = Some y → y ≤ x) →
  (∀ i y, (hi ≤ i)%nat → a !! i = Some y → x < y) →
  let r := bisect_loop Z.ltb a x lo hi in
  (lo ≤ r ≤ hi)%nat ∧
  (∀ i y, (i < r)%nat → a !! i = Some y → y ≤ x) ∧
  (∀ i y, (r ≤ i)%nat → a !! i = Some y → x < y).
Proof.
  induction n as [n IH] using lt_wf_ind.
  intros lo hi Hasc Hn Hbounds Hlow Hhigh. cbn zeta.
  rewrite bisect_loop_equation_1. case_decide as Hlt.
  2:{ split; [lia|split; [done|]]. intros i y Hi. apply Hhigh. lia. }
  cbn zeta. set (mid := ((lo + hi) `div` 2)%nat).
  assert (lo ≤ mid < hi)%nat as Hmid.
  { subst mid. pose proof (Nat.div_mod_eq (lo + hi) 2).
    pose proof (Nat.mod_upper_bound (lo + hi) 2). lia. }
  destruct (lookup_lt_is_Some_2 a mid ltac:(lia)) as [y Hy]. rewrite Hy.
  destruct (Z.ltb_spec x y) as [Hxy|Hyx].
  - edestruct (IH (mid - lo)%nat ltac:(lia) lo mid) as (? & ? & ?);
      [done|done|lia|done| |split; [lia|done]].
    intros i z Hi Hz. specialize (Hasc mid i y z Hy Hz Hi). lia.
  - edestruct (IH (hi - S mid)%nat ltac:(lia) (S mid) hi) as (? & ? & ?);
      [done|done|lia| |done|split; [lia|done]].
    intros i z Hi Hz. specialize (Hasc i mid z y Hz Hy ltac:(lia)). lia.
Qed.

Lemma bisect_right_spec (a : list Z) (x : Z) :
  ascending a →
  let r := bisect_right Z.ltb a x in
  (r ≤ length a)%nat ∧
  (∀ i y, (i < r)%nat → a !! i = Some y → y ≤ x) ∧
  (∀ i y, (r ≤ i)%nat → a !! i = Some y → x < y).
Proof.
  intros Hasc. unfold bisect_right.
  edestruct (bisect_loop_spec a x (length a) 0%nat (length a))
    as (? & ? & ?); [done|lia|lia|lia| |split; [lia|done]].
  intros i y Hi Hy. apply lookup_lt_Some in Hy. lia.
Qed.

(** What [__getitem__] does once the exact key is missing, on a line
    whose columns are [cols]. *)
Lemma getitem_miss (m : t) (l c : Z) :
  0 ≤ l → entries m !! (l, c) = None →
  __getitem__ m (LineColumn l c) =
  match mapped_columns m l with
  | [] => Raise IndexError
  | cols =>
      let cidx := Z.of_nat (bisect_right Z.ltb cols c) in
      col ← getitem cols (if decide (cidx = 0) then cidx else cidx - 1);
      match entries m !! (l, col) with
      | Some entry => Ok entry
      | None => Raise KeyError
      end
  end.
Proof.
  intros Hl Hmiss. unfold __getitem__, mapped_columns. rewrite Hmiss.
  rewrite getitem_nonneg, decide_True by done.
  by destruct (_index m !! Z.to_nat l) as [[|??]|].
Qed.

(** C3, as the claim states it, fails: with the columns 2, 5 and 9 mapped
    on line 0, no mapped column is at most 1, and the lookup at column 1
    does not fail: it returns the entry of the first column. *)
Lemma fine_lookup_below_minimum_returns_first :
  entries Samples.fine259 !! (0, 1) = None ∧
  Forall (λ col, 1 < col) (mapped_columns Samples.fine259 0) ∧
  __getitem__ Samples.fine259 (LineColumn 0 1) = Ok (Samples.bare 0 2) ∧
  ∀ e, __getitem__ Samples.fine259 (LineColumn 0 1) ≠ Raise e.
Proof.
  assert (__getitem__ Samples.fine259 (LineColumn 0 1) = Ok (Samples.bare 0 2))
    as Hfound by (by vm_compute).
  split; [by vm_compute|]. split; [by repeat constructor|].
  split; [done|]. intros e. by rewrite Hfound.
Qed.

(** C3, amended. On a fine map whose index lists, in ascending order,
    columns that have an entry: a lookup at an exact key returns that
    entry; otherwise, if some column mapped on the line is at most the
    requested column, it returns the entry at the greatest such column; if
    the line has mapped columns and all of them are above the requested
    column, it returns the entry at the first (smallest) mapped column;
    and only if the line has no mapped column at all does it fail, with
    [IndexError]. *)
Theorem fine_lookup_nearest (m : t) (l c : Z) :
  fine_wf m → 0 ≤ l →
  let found := __getitem__ m (LineColumn l c) in
  let cols := mapped_columns m l in
  (∀ e, entries m !! (l, c) = Some e → found = Ok e) ∧
  (entries m !! (l, c) = None →
     (∀ col, col ∈ cols → col ≤ c →
        (∀ col', col' ∈ cols → col' ≤ c → col' ≤ col) →
        ∃ e, entries m !! (l, col) = Some e ∧ found = Ok e) ∧
     (∀ first rest, cols = first :: rest → (∀ col, col ∈ cols → c < col) →
        ∃ e, entries m !! (l, first) = Some e ∧ found = Ok e) ∧
     (cols = [] → found = Raise IndexError)).
Proof.
  intros Hwf Hl found cols. subst found. split.
  { intros e He. unfold __getitem__. by rewrite He. }
  intros Hmiss. rewrite (getitem_miss m l c Hl Hmiss).
  fold cols.
  assert (cols ≠ [] → ascending cols ∧
          ∀ col, col ∈ cols → is_Some (entries m !! (l, col))) as Hcols.
  { subst cols. unfold mapped_columns. rewrite decide_True by done.
    destruct (_index m !! Z.to_nat l) as [cs|] eqn:Hcs; [|done].
    intros _. destruct (Hwf _ _ Hcs) as [Hasc Hkeys].
    by rewrite Z2Nat.id in Hkeys. }
  clearbody cols.
  split; [|split]; [| |by intros ->].
  - intros col Hcol Hle Hmax.
    destruct cols as [|c0 cs] eqn:Ecols; [by apply elem_of_nil in Hcol|].
    rewrite <- Ecols in *. clear Ecols c0 cs.
    assert (cols ≠ []) as Hne by (intros E; rewrite E in Hcol; by apply elem_of_nil in Hcol).
    destruct (Hcols Hne) as [Hasc Hkeys].
    destruct (bisect_right_spec cols c Hasc) as (Hr & Hbelow & Habove).
    set (r := bisect_right Z.ltb cols c) in *.
    apply list_elem_of_lookup in Hcol as [i Hi].
    assert (i < r)%nat as Hir.
    { destruct (decide (i < r)%nat); [done|].
      specialize (Habove i col ltac:(lia) Hi). lia. }
    destruct (lookup_lt_is_Some_2 cols (r - 1) ltac:(lia)) as [col' Hcol'].
    assert (col' = col) as ->.
    { pose proof (Hbelow (r - 1)%nat col' ltac:(lia) Hcol').
      pose proof (Hasc i (r - 1)%nat col col' Hi Hcol' ltac:(lia)).
      pose proof (Hmax col' ltac:(by eapply list_elem_of_lookup_2) ltac:(lia)).
      lia. }
    cbn zeta. rewrite decide_False by lia.
    rewrite getitem_nonneg by lia.
    fold r. replace (Z.to_nat (Z.of_nat r - 1)) with (r - 1)%nat by lia.
    rewrite Hcol'. cbn [mbind result_bind].
    destruct (Hkeys col ltac:(by eapply list_elem_of_lookup_2)) as [e He].
    exists e. by rewrite He.
  - intros first rest Ecols Hall.
    assert (cols ≠ []) as Hne by (by rewrite Ecols).
    destruct (Hcols Hne) as [Hasc Hkeys].
    destruct (bisect_right_spec cols c Hasc) as (Hr & Hbelow & Habove).
    assert (bisect_right Z.ltb cols c = 0%nat) as Hr0.
    { destruct (bisect_right Z.ltb cols c) as [|r']; [done|].
      assert (cols !! 0%nat = Some first) as H0 by (by rewrite Ecols).
      pose proof (Hbelow 0%nat first ltac:(lia) H0).
      pose proof (Hall first ltac:(rewrite Ecols; apply list_elem_of_here)). lia. }
    destruct (Hkeys first ltac:(rewrite Ecols; apply list_elem_of_here)) as [e He].
    exists e. split; [done|].
    rewrite Ecols. cbn zeta. rewrite <- Ecols, Hr0.
    rewrite decide_True by done. rewrite getitem_nonneg by done.
    change (Z.to_nat (Z.of_nat 0)) with 0%nat.
    replace (cols !! 0%nat) with (Some first) by (by rewrite Ecols).
    cbn. by rewrite He.
Qed.

Lemma foldM_invariant {A B} (f : B → A → result B) (I : B → Prop) (l : list A) :
  ∀ acc acc', I acc → (∀ a b b', I b → f b a = Ok b' → I b') →
              foldM f l acc = Ok acc' → I acc'.
Proof.
  induction l as [|a l IH]; intros acc acc' Hacc Hstep; cbn.
  - by intros [= <-].
  - intros (b & Hb & Hfold)%bind_Ok. eapply IH; [|done|done]. by eapply Hstep.
Qed.

(** Every column that the fine decoder lists in its index has an entry:
    half of [fine_wf] holds for every decoded map (the other half, ascending
    columns, holds when no generated-column delta is negative). *)
Lemma from_json_segment_keys sf names sp tcont (gline : nat) entries cur gcol cols
    decoded entries' cur' gcol' cols' index :
  from_json_segment sf names sp tcont (Z.of_nat gline) (entries, cur, gcol, cols)
    decoded = Ok (entries', cur', gcol', cols') →
  index_keys entries index ∧
    (∀ col, col ∈ cols → is_Some (entries !! (Z.of_nat gline, col))) →
  index_keys entries' index ∧
    (∀ col, col ∈ cols' → is_Some (entries' !! (Z.of_nat gline, col))).
Proof.
  unfold from_json_segment. destruct decoded as [|gcd ref]; [done|].
  intros ([cur2 entry] & _ & [= <- <- <- <-])%bind_Ok [Hindex Hcols].
  assert (∀ k, is_Some (entries !! k) →
               is_Some (<[(Z.of_nat gline, gcol + gcd) := entry]> entries !! k))
    as Hkeep.
  { intros k Hk. rewrite lookup_insert. by case_decide. }
  split.
  - intros l cs Hcs col Hcol. apply Hkeep. by eapply Hindex.
  - intros col [Hcol| ->%list_elem_of_singleton]%elem_of_app.
    + by apply Hkeep, Hcols.
    + by rewrite lookup_insert_eq.
Qed.

Lemma from_json_line_keys sf names sp tcont entries cur index (k : nat) g
    entries' cur' index' :
  from_json_line sf names sp tcont (entries, cur, index) (k, g)
  = Ok (entries', cur', index') →
  length index = k → index_keys entries index →
  length index' = S k ∧ index_keys entries' index'.
Proof.
  unfold from_json_line. intros Hline Hlen Hkeys.
  assert (∀ es cols, index_keys es index →
            (∀ col, col ∈ cols → is_Some (es !! (Z.of_nat k, col))) →
            index_keys es (index ++ [cols])) as Hsnoc.
  { intros es cols Hes Hcols l cs Hcs col Hcol.
    apply lookup_app_Some in Hcs as [Hcs|[Hl Hcs]]; [by eapply Hes|].
    apply list_lookup_singleton_Some in Hcs as [Hl0 <-].
    replace l with k by lia. by apply Hcols. }
  destruct g as [|c g'].
  { injection Hline as <- <- <-. rewrite length_app. cbn. split; [lia|].
    apply Hsnoc; [done|]. by intros col ?%elem_of_nil. }
  apply bind_Ok in Hline as ([[[es cur1] gcol] cols] & Hfold & [= <- <- <-]).
  rewrite length_app. cbn. split; [lia|].
  eapply (foldM_invariant _
            (λ '(es, _, _, cols),
               index_keys es index ∧
               ∀ col, col ∈ cols → is_Some (es !! (Z.of_nat k, col))))
    in Hfold as [Hes Hcols]; [by apply Hsnoc| |].
  - split; [done|]. by intros col ?%elem_of_nil.
  - intros seg [[[es0 cur0] gcol0] cols0] [[[es1 cur2] gcol1] cols1] Hinv
           (decoded & _ & Hseg)%bind_Ok.
    by eapply from_json_segment_keys.
Qed.

Lemma from_json_lines_keys sf names sp tcont (groups : list str) :
  ∀ (k : nat) entries cur index entries' cur' index',
  foldM (from_json_line sf names sp tcont) (enumerate_from k groups)
    (entries, cur, index) = Ok (entries', cur', index') →
  length index = k → index_keys entries index → index_keys entries' index'.
Proof.
  induction groups as [|g groups IH];
    intros k entries cur index entries' cur' index'; cbn.
  - by intros [= <- <- <-].
  - intros ([[es1 cur1] index1] & Hline & Hfold)%bind_Ok Hlen Hkeys.
    destruct (from_json_line_keys _ _ _ _ _ _ _ _ _ _ _ _ Hline Hlen Hkeys).
    by eapply IH.
Qed.

Lemma from_json_index_keys r sources source_files target fm :
  from_json r sources source_files target = Ok fm →
  index_keys (entries fm) (_index fm).
Proof.
  unfold from_json. case_decide; [done|].
  intros (contents & _ & (sp & _ & Hloop)%bind_Ok)%bind_Ok.
  apply bind_Ok in Hloop as ([[es cur] index] & Hloop & [= <-]). cbn.
  eapply from_json_lines_keys; [done|done|].
  by intros l cols ?.
Qed.

Lemma from_json_wf r sources source_files target fm :
  from_json r sources source_files target = Ok fm →
  (∀ (l : nat) cols, _index fm !! l = Some cols → ascending cols) →
  fine_wf fm.
Proof.
  intros Hfm Hasc l cols Hcols. split; [by eapply Hasc|].
  by eapply from_json_index_keys.
Qed.

Lemma fine259_wf : fine_wf Samples.fine259.
Proof.
  intros l cols Hl. destruct l as [|l]; [|by destruct l].
  injection Hl as <-. split.
  - intros i j x y Hi Hj Hij.
    destruct i as [|[|[|i]]], j as [|[|[|j]]]; simplify_eq/=; lia.
  - intros col Hcol.
    repeat (apply elem_of_cons in Hcol as [->|Hcol]; [by eexists|]).
    by apply elem_of_nil in Hcol.
Qed.

Lemma fine_lookup_nearest_witness :
  ∃ e, entries Samples.fine259 !! (0, 5) = Some e ∧
       __getitem__ Samples.fine259 (LineColumn 0 7) = Ok e.
Proof.
  destruct (fine_lookup_nearest Samples.fine259 0 7 fine259_wf ltac:(done))
    as [_ Hmiss].
  destruct (Hmiss eq_refl) as (Hnearest & _ & _).
  apply Hnearest.
  - apply list_elem_of_further, list_elem_of_here.
  - done.
  - intros col Hcol Hle.
    repeat (apply elem_of_cons in Hcol as [->|Hcol]; [lia|]).
    by apply elem_of_nil in Hcol.
Defined.

End Lookup.

(** ** The coarse decoder on short groups *)

Section Coarse.

Lemma vlq_decode_loop_raise (bs : bytes) : ∀ shift value results e,
  vlq_decode_loop bs shift value results = Raise e → e = IndexError.
Proof.
  induction bs as [|b bs IH]; intros shift value results e; cbn; [done|].
  destruct (b64table_getitem b) as [v|e'] eqn:Hv; cbn.
  - case_decide; apply IH.
  - intros [= <-]. by eapply b64table_getitem_raise.
Qed.

Lemma vlq_decode_ascii_raise (token : str) (e : exn) :
  Forall (λ c, c < 128)%N token →
  _base64vlq_decode token = Raise e → e = IndexError.
Proof.
  intros Hascii. unfold _base64vlq_decode, encode_ascii.
  rewrite (proj2 (forallb_forall _ _)).
  - apply vlq_decode_loop_raise.
  - intros c Hc%list_elem_of_In. apply N.ltb_lt.
    by eapply (proj1 (Forall_forall _ _) Hascii).
Qed.

Lemma decode_int_value_ascii_raise (group : str) (e : exn) :
  Forall (λ c, c < 128)%N group →
  _decode_int_value group = Raise e → e = IndexError.
Proof.
  intros Hascii. unfold _decode_int_value.
  destruct (_base64vlq_decode group) as [decoded|e'] eqn:Hdec; cbn.
  - destruct decoded; [done|].
    destruct (getitem _ 2) eqn:Hget; cbn; [done|].
    intros [= <-]. by eapply getitem_raise.
  - intros [= <-]. by eapply vlq_decode_ascii_raise.
Qed.

(** The per-group decoder reads the third integer and guards only against
    the empty list. *)
Lemma decode_int_value_short (group : str) (decoded : list Z) :
  _base64vlq_decode group = Ok decoded → (0 < length decoded < 3)%nat →
  _decode_int_value group = Raise IndexError.
Proof.
  intros Hdec Hlen. unfold _decode_int_value. rewrite Hdec. cbn.
  destruct decoded as [|a [|b [|c rest]]]; cbn in Hlen; try lia; done.
Qed.

Lemma mapM_raise_at {A B} (f : A → result B) (e : exn) (l : list A) :
  ∀ (i : nat) x, l !! i = Some x → f x = Raise e →
  ∃ e', mapM f l = Raise e' ∧
        (e' = e ∨ ∃ (j : nat) y, (j < i)%nat ∧ l !! j = Some y ∧ f y = Raise e').
Proof.
  induction l as [|a l IH]; intros i x Hi Hx; [done|].
  destruct i as [|i]; cbn in *.
  - injection Hi as ->. rewrite Hx. eauto.
  - destruct (f a) as [b|e'] eqn:Ha; cbn.
    + destruct (IH i x Hi Hx) as (e' & -> & [->|(j & y & Hj & Hy & Hfy)]).
      * eauto.
      * exists e'. split; [done|]. right. exists (S j), y.
        split; [lia|done].
    + exists e'. split; [done|]. right. exists 0%nat, a. split; [lia|done].
Qed.

(** C10, at the mappings string ["é;A"] (é is code point 233). Its second
    group ["A"] decodes to the one integer 0, yet the construction does not
    fail with an index error: the groups are decoded in order, the first
    one is not ASCII, and [encode("ascii")] raises [UnicodeEncodeError]
    before the short group is reached. *)
Lemma coarse_non_ascii_group_raises_first :
  split 59 [233; 59; 65]%N !! 1%nat = Some (lit "A") ∧
  _base64vlq_decode (lit "A") = Ok [0] ∧
  SourceMap.__init__ (Samples.record 3 [233; 59; 65]%N)
  = Raise UnicodeEncodeError.
Proof. repeat split; vm_compute; reflexivity. Qed.

(** C10, amended. When a [';']-separated group of the mappings string
    VLQ-decodes to one or two integers, the construction of the coarse
    [SourceMap] fails, for every record: the per-group decoder reads the
    third decoded integer and guards only against the empty list, and
    nothing catches the error. On a version-3 record with its [sources]
    in which no earlier group holds a character outside ASCII, the error
    is that [IndexError] (any other failure of an earlier ASCII group is
    an [IndexError] too). *)
Theorem coarse_short_group_index_error (r : JSONSourceMap) (i : nat)
    (group : str) (decoded : list Z) :
  split 59 (JSON.mappings r) !! i = Some group →
  _base64vlq_decode group = Ok decoded → (0 < length decoded < 3)%nat →
  ∃ e, SourceMap.__init__ r = Raise e ∧
       (JSON.version r = 3 → is_Some (JSON.sources r) →
        (∀ (j : nat) g, (j < i)%nat →
           split 59 (JSON.mappings r) !! j = Some g →
           Forall (λ c, c < 128)%N g) →
        e = IndexError).
Proof.
  intros Hgroup Hdec Hlen. unfold SourceMap.__init__.
  destruct (decide (JSON.version r ≠ 3)) as [Hne|_].
  { eexists. split; [done|]. by intros ?. }
  destruct (JSON.sources r) as [srcs|].
  2:{ eexists. split; [done|]. by intros _ [? ?]. }
  cbn [mbind result_bind].
  destruct (mapM_raise_at _decode_int_value IndexError _ i group Hgroup)
    as (e & -> & He); [by eapply decode_int_value_short|].
  exists e. split; [done|]. intros _ _ Hbefore.
  destruct He as [->|(j & g & Hj & Hg & Hraise)]; [done|].
  eapply decode_int_value_ascii_raise; [|done]. by eapply Hbefore.
Qed.

Lemma coarse_short_group_index_error_witness :
  SourceMap.__init__ (Samples.record 3 (lit "A")) = Raise IndexError.
Proof.
  destruct (coarse_short_group_index_error (Samples.record 3 (lit "A"))
              0 (lit "A") [0]) as (e & Hfail & Herror).
  - reflexivity.
  - by vm_compute.
  - simpl. lia.
  - rewrite Hfail. f_equal. apply Herror.
    + reflexivity.
    + by eexists.
    + intros j g Hj. lia.
Defined.

End Coarse.

(** ** Composition of functional mappers *)

Section Compose.
Import FunctionalSourceMapper.




(** C4, at the mappers built from [Samples.teal_to_pc] and
    [Samples.source_to_teal]. The composition succeeds and its one chunk has
    the target line number and text of the chunk of [self], but its target
    column span is (0, 6), the source span of that chunk, while the target
    span of that chunk is (0, 5). *)
Theorem mul_target_span_is_source_span :
  ∃ self other product,
    from_chunks [Samples.teal_to_pc] = Ok self ∧
    from_chunks [Samples.source_to_teal] = Ok other ∧
    __mul__ self other = Ok product ∧
    chunks product
    = [Chunk.mk 0 (lit "    return") (4, 10) 0 (lit "PC[0]") (0, 6)] ∧
    Chunk.target_col_bounds Samples.teal_to_pc = (0, 5).
Proof.
  eexists (mk [(0, 6)] [Samples.teal_to_pc]),
          (mk [(0, 10)] [Samples.source_to_teal]), _.
  repeat split; by vm_compute.
Qed.

End Compose.

(** ** Right-bound inference *)

Section Bounds.
Import RightBounds.

Lemma walk_bounds line_length gline cols : ∀ entries,
  walk line_length gline cols entries
  = apply_bounds (line_bounds line_length gline cols) entries.
Proof.
  induction cols as [|col rest IH]; intros entries; [done|].
  cbn [walk line_bounds]. destruct rest as [|next rest'].
  - by destruct line_length.
  - by rewrite IH.
Qed.

Lemma infer_line_bounds target entries item :
  infer_line target entries item = apply_bounds (item_bounds target item) entries.
Proof.
  destruct item as [gline cols]. unfold infer_line, item_bounds. cbn [fst snd].
  case_decide; [apply walk_bounds|done].
Qed.

Lemma infer_bounds target items : ∀ entries,
  fold_left (infer_line target) items entries
  = apply_bounds (concat (map (item_bounds target) items)) entries.
Proof.
  induction items as [|item items IH]; intros entries; [done|].
  cbn [fold_left map concat]. rewrite IH, infer_line_bounds.
  unfold apply_bounds. by rewrite fold_left_app.
Qed.

Lemma last_bound_snoc k bounds b :
  last_bound k (bounds ++ [b])
  = if decide (b.1 = k) then Some b.2 else last_bound k bounds.
Proof. unfold last_bound. by rewrite fold_left_app. Qed.

Lemma apply_bounds_lookup bounds entries k :
  apply_bounds bounds entries !! k
  = match last_bound k bounds with
    | Some bound => set_end bound <$> entries !! k
    | None => entries !! k
    end.
Proof.
  induction bounds as [|b bounds IH] using rev_ind; [done|].
  rewrite last_bound_snoc. unfold apply_bounds. rewrite fold_left_app.
  cbn [fold_left]. fold (apply_bounds bounds entries).
  rewrite lookup_alter. case_decide as Hk; [|done].
  rewrite Hk, IH. destruct (last_bound k bounds); [|done].
  by destruct (entries !! k).
Qed.

Lemma apply_bounds_idempotent bounds entries :
  apply_bounds bounds (apply_bounds bounds entries) = apply_bounds bounds entries.
Proof.
  apply map_eq. intros k. rewrite !apply_bounds_lookup.
  destruct (last_bound k bounds); [|done]. by destruct (entries !! k).
Qed.

Lemma last_bound_absent k bounds :
  Forall (λ b, b.1 ≠ k) bounds → last_bound k bounds = None.
Proof.
  induction bounds as [|b bounds IH] using rev_ind; [done|].
  intros [Hbounds Hb%Forall_inv]%Forall_app.
  cbn beta in Hb. rewrite last_bound_snoc.
  destruct (decide (b.1 = k)); [done|]. by apply IH.
Qed.

Lemma line_bounds_keys line_length gline cols :
  Forall (λ b, b.1.1 = gline) (line_bounds line_length gline cols).
Proof.
  induction cols as [|col rest IH]; [constructor|].
  cbn [line_bounds]. destruct rest as [|next rest'].
  - destruct line_length; by repeat constructor.
  - by constructor.
Qed.

Lemma enumerate_from_lookup {A} (l : list A) : ∀ (k i : nat) x,
  (i, x) ∈ enumerate_from k l → (k ≤ i)%nat ∧ l !! (i - k)%nat = Some x.
Proof.
  induction l as [|a l IH]; intros k i x; cbn.
  - by intros ?%elem_of_nil.
  - intros [[= -> ->]|Hin]%elem_of_cons.
    + by rewrite Nat.sub_diag.
    + destruct (IH _ _ _ Hin) as [Hle Hl]. split; [lia|].
      by replace (i - k)%nat with (S (i - S k)) by lia.
Qed.

(** C6. On the model of the right-bound inference: running it twice gives
    the same map as running it once, and on a generated line whose index
    lists at most one column every entry of that line is left as it was. *)
Theorem infer_right_bounds_idempotent (m : t) :
  infer_right_bounds (infer_right_bounds m) = infer_right_bounds m ∧
  ∀ (gline : nat) cols,
    _index m !! gline = Some cols → (length cols ≤ 1)%nat →
    ∀ col, entries (infer_right_bounds m) !! (Z.of_nat gline, col)
           = entries m !! (Z.of_nat gline, col).
Proof.
  split.
  - unfold infer_right_bounds. cbn [entries _index target]. f_equal.
    rewrite !infer_bounds. apply apply_bounds_idempotent.
  - intros gline cols Hcols Hlen col. unfold infer_right_bounds.
    cbn [entries]. rewrite infer_bounds, apply_bounds_lookup.
    rewrite last_bound_absent; [done|].
    apply Forall_concat, Forall_map, Forall_forall.
    intros [g cs] [_ Hcs]%enumerate_from_lookup.
    rewrite Nat.sub_0_r in Hcs. unfold item_bounds. cbn [fst snd].
    case_decide as Hlong; [|constructor].
    eapply Forall_impl; [apply line_bounds_keys|].
    intros b Hb Hk. cbn beta in Hb. rewrite Hk in Hb. cbn in Hb.
    apply Nat2Z.inj in Hb as ->. rewrite Hcols in Hcs. injection Hcs as <-. lia.
Qed.

Lemma infer_right_bounds_idempotent_witness :
  entries (infer_right_bounds Samples.bounded) !! (0, 3)
  = entries Samples.bounded !! (0, 3).
Proof.
  apply (proj2 (infer_right_bounds_idempotent Samples.bounded) 0%nat [3]).
  - reflexivity.
  - simpl. lia.
Defined.

End Bounds.

(** ** Agreement of the coarse and the fine decoder *)

Section Agreement.
Import MJPSourceMap.

Lemma split_no_sep (sep : N) (s : str) : sep ∉ s → split sep s = [s].
Proof.
  induction s as [|c s IH]; [done|].
  intros [Hc Hs]%not_elem_of_cons. cbn [split].
  rewrite decide_False by done. by rewrite IH.
Qed.

Lemma post_init_Ok (self e : SourceMapping.t) :
  SourceMapping.__post_init__ self = Ok e → e = self.
Proof.
  unfold SourceMapping.__post_init__. repeat case_match; congruence.
Qed.

(** One group with a single segment, read by both decoders. *)
Lemma from_json_line_single sf names sp tcont entries cur index (k : nat)
    (g : str) entries' cur' index' pc :
  44%N ∉ g →
  (∀ decoded, _base64vlq_decode g = Ok decoded → length decoded ≠ 3%nat) →
  _decode_int_value g = Ok pc →
  from_json_line sf names sp tcont (entries, cur, index) (k, g)
  = Ok (entries', cur', index') →
  sline cur' = match pc with Some d => sline cur + d | None => sline cur end ∧
  (entries' = entries ∨
   ∃ gcol e, entries' = <[(Z.of_nat k, gcol) := e]> entries ∧
             ∀ sl, SourceMapping.source_line e = Some sl → sl = sline cur').
Proof.
  intros Hcomma Hlen Hpc Hline. unfold from_json_line in Hline.
  destruct g as [|c g'].
  { injection Hline as <- <- <-. vm_compute in Hpc. injection Hpc as <-. auto. }
  rewrite split_no_sep in Hline by done. cbn [foldM] in Hline.
  apply bind_Ok in Hline as ([[[e1 c1] gc] cols] & Hfold & Hret).
  injection Hret as <- <- <-.
  apply bind_Ok in Hfold as (acc & Hseg & [= ->]).
  apply bind_Ok in Hseg as (decoded & Hdec & Hseg).
  unfold _decode_int_value in Hpc. rewrite Hdec in Hpc. cbn in Hpc.
  specialize (Hlen decoded Hdec).
  destruct decoded as [|gcd [|sd [|sld [|scd namedelta]]]]; try done.
  cbn in Hpc. injection Hpc as <-.
  unfold from_json_segment in Hseg.
  apply bind_Ok in Hseg as ([cur2 entry] & Hinner & Hret).
  injection Hret as <- <- _ _.
  repeat (apply bind_Ok in Hinner as (? & ? & Hinner)).
  destruct x3 as [npos' name'].
  apply bind_Ok in Hinner as (made & Hmade%post_init_Ok & [= <- <-]).
  split; [done|]. right. eexists _, _. split; [done|].
  rewrite Hmade. cbn. by intros sl [= <-].
Qed.

Lemma agree_upto_step (k : nat) entries entries' pc_to_line (line : Z) :
  agree_upto k entries pc_to_line →
  (entries' = entries ∨
   ∃ gcol e, entries' = <[(Z.of_nat k, gcol) := e]> entries ∧
             ∀ sl, SourceMapping.source_line e = Some sl → sl = line) →
  agree_upto (S k) entries' (<[Z.of_nat k := line]> pc_to_line).
Proof.
  intros [Hbelow Hagree] Hstep. split.
  - intros i col Hsome.
    destruct Hstep as [->|(gcol & e & -> & _)].
    + specialize (Hbelow _ _ Hsome). lia.
    + destruct (decide ((Z.of_nat k, gcol) = (i, col))) as [[= <- <-]|Hne]; [lia|].
      rewrite lookup_insert_ne in Hsome by done.
      specialize (Hbelow _ _ Hsome). lia.
  - intros i col e' sl He' Hsl.
    destruct Hstep as [->|(gcol & e & -> & Hline)].
    + assert (i < Z.of_nat k) by (apply (Hbelow i col); by eexists).
      rewrite lookup_insert_ne by lia. by eapply Hagree.
    + destruct (decide ((Z.of_nat k, gcol) = (i, col))) as [[= <- <-]|Hne].
      * rewrite lookup_insert_eq in He'. injection He' as <-.
        rewrite lookup_insert_eq. f_equal. symmetry. by apply Hline.
      * rewrite lookup_insert_ne in He' by done.
        assert (i < Z.of_nat k) by (apply (Hbelow i col); by eexists).
        rewrite lookup_insert_ne by lia. by eapply Hagree.
Qed.

(** Both loops, run side by side from generated line [k] on. *)
Lemma decoders_agree sf names sp tcont (groups : list str) :
  ∀ (k : nat) pcs entries cur index entries' cur' index'
    last_line pc_to_line line_to_pc,
  Forall (λ group,
            (44%N ∉ group) ∧
            ∀ decoded, _base64vlq_decode group = Ok decoded →
                       length decoded ≠ 3%nat) groups →
  mapM _decode_int_value groups = Ok pcs →
  foldM (from_json_line sf names sp tcont) (enumerate_from k groups)
    (entries, cur, index) = Ok (entries', cur', index') →
  sline cur = last_line →
  agree_upto k entries pc_to_line →
  agree_upto (k + length groups) entries'
    (fold_left SourceMap.step (enumerate_from k pcs)
       (last_line, pc_to_line, line_to_pc)).1.2.
Proof.
  induction groups as [|g groups IH];
    intros k pcs entries cur index entries' cur' index'
           last_line pc_to_line line_to_pc Hgood Hcoarse Hfine Hline Hagree.
  - injection Hcoarse as <-. injection Hfine as <- <- <-.
    by rewrite Nat.add_0_r.
  - apply Forall_cons in Hgood as [[Hcomma Hlen] Hgood].
    cbn [mapM] in Hcoarse.
    apply bind_Ok in Hcoarse as (pc & Hpc & (pcs' & Hpcs & [= <-])%bind_Ok).
    cbn [enumerate_from foldM] in Hfine.
    apply bind_Ok in Hfine as ([[entries1 cur1] index1] & Hstep & Hfine).
    destruct (from_json_line_single _ _ _ _ _ _ _ _ _ _ _ _ _
                Hcomma Hlen Hpc Hstep) as [Hsline Hentries].
    cbn [enumerate_from fold_left SourceMap.step length].
    replace (k + S (length groups))%nat with (S k + length groups)%nat by lia.
    subst last_line. rewrite <- Hsline.
    eapply IH; [done|done|done|done|].
    by eapply agree_upto_step.
Qed.

(** A segment of exactly three integers moves the coarse decoder only: in
    ["AAC;AAAA"] the coarse table holds line 1 at offset 1, where the fine
    entry holds source line 0. *)
Lemma three_integers_disagree :
  ∃ sm fm e,
    SourceMap.__init__ (Samples.record 3 (lit "AAC;AAAA")) = Ok sm ∧
    from_json (Samples.record 3 (lit "AAC;AAAA")) [] None None = Ok fm ∧
    SourceMap.get_line_for_pc sm 1 = Some 1 ∧
    entries fm !! (1, 0) = Some e ∧
    SourceMapping.source_line e = Some 0.
Proof.
  eexists _, _, _.
  repeat (split; [vm_compute; reflexivity|]). vm_compute; reflexivity.
Qed.

(** C5, as the claim states it, fails. In ["AAAA,CACA;AAAA"] the second
    segment of the first group moves the fine decoder to source line 1,
    while the coarse decoder reads only the third integer of each group:
    both succeed, and at offset 1 the coarse table holds line 0 where the
    fine entry holds source line 1. *)
Lemma coarse_fine_disagree :
  ∃ sm fm e,
    SourceMap.__init__ (Samples.record 3 (lit "AAAA,CACA;AAAA")) = Ok sm ∧
    from_json (Samples.record 3 (lit "AAAA,CACA;AAAA")) [] None None = Ok fm ∧
    SourceMap.get_line_for_pc sm 1 = Some 0 ∧
    entries fm !! (1, 0) = Some e ∧
    SourceMapping.source_line e = Some 1.
Proof.
  eexists _, _, _.
  repeat (split; [vm_compute; reflexivity|]). vm_compute; reflexivity.
Qed.

(** C5, amended. For a mappings string in which every [';']-separated
    group holds at most one segment and none decodes to exactly three
    integers: whenever the coarse and the fine decoder both succeed, every
    fine entry of generated line [offset] that carries a source line holds
    the line that the coarse table gives for [offset]. *)
Theorem coarse_fine_agree (r : JSONSourceMap) (sources : list str)
    (source_files : option (list str)) (target : option str)
    (sm : SourceMap.t) (fm : t) :
  single_segment_groups (JSON.mappings r) →
  SourceMap.__init__ r = Ok sm →
  from_json r sources source_files target = Ok fm →
  ∀ (offset column : Z) e sl,
    entries fm !! (offset, column) = Some e →
    SourceMapping.source_line e = Some sl →
    SourceMap.get_line_for_pc sm offset = Some sl.
Proof.
  intros Hgood Hcoarse Hfine offset column e sl He Hsl.
  unfold SourceMap.__init__ in Hcoarse. case_decide; [done|].
  apply bind_Ok in Hcoarse as (srcs & _ & (pcs & Hpcs & Hsm)%bind_Ok).
  unfold from_json in Hfine. case_decide; [done|].
  apply bind_Ok in Hfine as (contents & _ & (sp & _ & Hloop)%bind_Ok).
  apply bind_Ok in Hloop as ([[entries' cur'] index'] & Hloop & [= <-]).
  cbn [entries] in He.
  pose proof (decoders_agree _ _ _ _ _ 0%nat _ _ _ _ _ _ _ 0 ∅ ∅
                Hgood Hpcs Hloop eq_refl) as [_ Hagree].
  { split; intros i col; rewrite lookup_empty; [by intros [? ?]|done]. }
  unfold enumerate in Hsm.
  destruct (fold_left SourceMap.step _ _) as [[last_line pc_to_line] line_to_pc].
  injection Hsm as <-. unfold SourceMap.get_line_for_pc. cbn.
  by eapply Hagree.
Qed.

Lemma coarse_fine_agree_witness :
  ∃ sm fm,
    SourceMap.__init__ (Samples.record 3 (lit "AAAA;;AACA")) = Ok sm ∧
    from_json (Samples.record 3 (lit "AAAA;;AACA")) [] None None = Ok fm ∧
    ∀ e sl, entries fm !! (2, 0) = Some e →
            SourceMapping.source_line e = Some sl →
            SourceMap.get_line_for_pc sm 2 = Some sl.
Proof.
  eexists _, _.
  split; [vm_compute; reflexivity|]. split; [vm_compute; reflexivity|].
  intros e sl.
  apply (coarse_fine_agree (Samples.record 3 (lit "AAAA;;AACA")) [] None None).
  - unfold single_segment_groups.
    change (split 59 (JSON.mappings (Samples.record 3 (lit "AAAA;;AACA"))))
      with [lit "AAAA"; []; lit "AACA"].
    repeat apply Forall_cons_2; [| | |apply Forall_nil_2];
      (split; [apply (bool_decide_unpack _); vm_compute; exact I|]);
      intros decoded Hdec; vm_compute in Hdec; injection Hdec as <-; cbn; lia.
  - vm_compute; reflexivity.
  - vm_compute; reflexivity.
Defined.

(** ** Decoding what the encoder wrote *)

(** When the record carries the text of its source, the encoder writes it
    back and the second decoding gives the entry table of the first. *)
Lemma reencoded_record_with_text :
  ∃ fm wire fm',
    from_json Samples.record_with_text [] None None = Ok fm ∧
    to_json fm = Ok wire ∧
    from_json wire [] None None = Ok fm' ∧
    entries fm' = entries fm.
Proof.
  eexists _, _, _.
  repeat (split; [vm_compute; reflexivity|]). vm_compute; reflexivity.
Qed.

(** C2, at the record [{"version": 3, "sources": ["a.teal"], "names": [],
    "mappings": "AAAA"}]. It is decoded, and the map is encoded again; no
    source text was given, so the encoder writes [sourcesContent: [null]].
    Decoding that record raises [AttributeError] (the decoder calls
    [splitlines] on every element of [sourcesContent]), so there is no
    second entry table to compare with the first. *)
Theorem reencoded_record_is_refused :
  ∃ fm wire,
    from_json (Samples.record 3 (lit "AAAA")) [] None None = Ok fm ∧
    to_json fm = Ok wire ∧
    JSON.sourcesContent wire = Some (Some [None]) ∧
    from_json wire [] None None
    = Raise (AttributeError "'NoneType' object has no attribute 'splitlines'").
Proof.
  eexists _, _.
  repeat (split; [vm_compute; reflexivity|]). vm_compute; reflexivity.
Qed.

End Agreement.

(* ================================================================== *)
(** * Further properties *)

(** ** More on the VLQ codec *)

Section VLQTokens.












End VLQTokens.

(** ** More on the coarse decoder *)

Section CoarseTables.
Import SourceMap.











End CoarseTables.

(** ** More on the functional mapper *)

Section BisectOrder.
Context {A : Type} (ltb : A → A → bool) (le : A → A → Prop).
Hypothesis le_trans : ∀ x y z, le x y → le y z → le x z.
Hypothesis ltb_le : ∀ x y, if ltb x y then ¬ le y x else le y x.


End BisectOrder.

Section Mapper.
Import FunctionalSourceMapper.


























End Mapper.

(** ** Texts and lines *)

Section Texts.


Lemma split_nonempty (sep : N) (s : str) : split sep s ≠ [].
Proof.
  induction s as [|c s IH]; simpl; [done|].
  destruct (decide (c = sep)); [done|]. by destruct (split sep s).
Qed.



(** Gluing what [split] cut gives the text back. *)
Lemma join_split (sep : N) (s : str) : join [sep] (split sep s) = s.
Proof.
  induction s as [|c s IH]; [done|]. simpl.
  pose proof (split_nonempty sep s) as Hne.
  destruct (decide (c = sep)) as [->|Hc].
  - destruct (split sep s) as [|p ps] eqn:Hs; [done|].
    change (join [sep] ([] :: p :: ps)) with (sep :: join [sep] (p :: ps)).
    by rewrite IH.
  - destruct (split sep s) as [|p ps] eqn:Hs; [done|].
    destruct ps as [|q ps]; simpl in *; by rewrite <- IH.
Qed.

End Texts.

Section MapperTarget.
Import FunctionalSourceMapper.



End MapperTarget.

Section Numbering.
Import autoindex.



End Numbering.

Section ContentLine.


End ContentLine.

(** ** More on the fine decoder *)

Section FineEntries.
Import MJPSourceMap.













End FineEntries.

(** ** More on the encoder *)

Section Encoder.
Import MJPSourceMap.
#[local] Arguments _base64vlq_encode : simpl never.




























End Encoder.

(** ** The coarse decoder: acceptance and chunks *)

Section CoarseChunks.
Import SourceMap.















End CoarseChunks.

Section Construct.
Import FunctionalSourceMapper.


End Construct.

Section NegativeLine.
Import MJPSourceMap.





End NegativeLine.
